(** * Qt_Learning: em-relative sizing and the layout demo form

    A shallow embedding of the C++ snippets of the repository:

    - the DPI-aware stylesheet snippets, which measure the font height
      [em] and derive pixel sizes from it with [int] arithmetic
      ([em / 4], [em / 2], [em * 2], [em * 1.5], [em * 5]);
    - the layout demo window of [simple_layout.cpp] ([MainWindow], its
      [onSubmit] slot and the lambda connected to the Clear button);
    - the other stylesheet snippets (the one-line stylesheets, the window
      that reapplies its stylesheet on a screen change) and the text of
      the stylesheets they build with [QString::arg].

    C++ [int] values are integers of [Z] inside the 32-bit range; an
    operation whose mathematical result leaves that range is undefined
    behaviour in C++ and yields [None] here.  A [QString] is the list of
    its UTF-16 code units. *)

From Stdlib Require Import ZArith QArith Qabs Qround Lia List Bool.
From Stdlib Require Import Strings.String Strings.Ascii Numbers.DecimalString.
Import ListNotations.

Local Open Scope Z_scope.

(** ** Error monad for computations that may be undefined *)

Definition obind {A B : Type} (m : option A) (f : A -> option B) : option B :=
  match m with
  | Some a => f a
  | None => None
  end.

Declare Scope option_scope.
Delimit Scope option_scope with opt.
Notation "x <- m ;; k" := (obind m (fun x => k))
  (at level 61, m at next level, right associativity) : option_scope.

(** ** The C++ [int] and the [double]s the snippets compute with *)

Module CInt.

Definition INT_MIN : Z := - 2 ^ 31.
Definition INT_MAX : Z := 2 ^ 31 - 1.

Definition in_range (z : Z) : bool := (INT_MIN <=? z) && (z <=? INT_MAX).

(** The value of an [int] expression whose exact result is [z]: defined
    only when [z] is representable. *)
Definition checked (z : Z) : option Z :=
  if in_range z then Some z else None.

(** [a * b] on [int]. *)
Definition mul (a b : Z) : option Z := checked (a * b).

(** [a / b] on [int]: the quotient truncated toward zero; division by
    zero is undefined. *)
Definition div (a b : Z) : option Z :=
  if b =? 0 then None else checked (Z.quot a b).

(** The usual arithmetic conversion of an [int] operand to [double].
    Every [double] of the snippets is [n] or [n * 1.5] for a 32-bit [n];
    such a value is a multiple of 1/2 below 2^33 in magnitude, so binary64
    holds it exactly and it is represented by the rational itself (see
    [ScalingFacts.inputHeight_product_exact]). *)
Definition to_double (a : Z) : Q := inject_Z a.

Definition dmul (x y : Q) : Q := Qmult x y.

(** Implicit conversion of a [double] to [int]: the fractional part is
    discarded (truncation toward zero); undefined when the truncated
    value is not representable. *)
Definition of_double (x : Q) : option Z :=
  checked (Z.quot (Qnum x) (Zpos (Qden x))).

End CInt.

(** ** QString *)

Module QStr.

(** A UTF-16 code unit. *)
Definition QChar := N.
Definition QString := list QChar.

(** A [QString] built from an ASCII literal. *)
Fixpoint qs (s : string) : QString :=
  match s with
  | EmptyString => []
  | String c s' => N_of_ascii c :: qs s'
  end.

Definition isEmpty (s : QString) : bool :=
  match s with
  | [] => true
  | _ :: _ => false
  end.

(** [QChar::isSpace]: the ASCII characters tab, line feed, vertical tab,
    form feed, carriage return and space, U+0085, U+00A0 and the Unicode
    separators (categories Zs, Zl, Zp). *)
Definition isSpace (c : QChar) : bool :=
  ((c =? 32) || ((9 <=? c) && (c <=? 13))
   || (c =? 133) || (c =? 160) || (c =? 5760)
   || ((8192 <=? c) && (c <=? 8202))
   || (c =? 8232) || (c =? 8233) || (c =? 8239) || (c =? 8287)
   || (c =? 12288))%N.

Fixpoint dropWhile (p : QChar -> bool) (s : QString) : QString :=
  match s with
  | [] => []
  | c :: s' => if p c then dropWhile p s' else s
  end.

(** [QString::trimmed]: whitespace removed from the start and the end. *)
Definition trimmed (s : QString) : QString :=
  rev (dropWhile isSpace (rev (dropWhile isSpace s))).

(** [QString::number], base 10, as [QString::arg(int)] prints its
    argument. *)
Definition number (z : Z) : QString :=
  qs (NilZero.string_of_int (Z.to_int z)).

(** *** Place markers

    A format string is cut into literal characters and place markers
    [%n] or [%Ln], [n] of one or two decimal digits. *)

Inductive piece : Type :=
| Lit (c : QChar)
| Marker (n : N) (raw : QString).

Inductive scan : Type :=
| Plain
| Percent (raw : QString)
| Digit (raw : QString) (d : N).

Definition isDigit (c : QChar) : bool := ((48 <=? c) && (c <=? 57))%N.
Definition digitValue (c : QChar) : N := (c - 48)%N.

Definition percent : QChar := 37%N.
Definition letterL : QChar := 76%N.

Definition plain_step (c : QChar) : list piece * scan :=
  if (c =? percent)%N then ([], Percent [c]) else ([Lit c], Plain).

(** One character of the scanner: the pieces it completes and the next
    scanner state. *)
Definition scan_step (st : scan) (c : QChar) : list piece * scan :=
  match st with
  | Plain => plain_step c
  | Percent raw =>
      if isDigit c then ([], Digit (raw ++ [c]) (digitValue c))
      else if (c =? letterL)%N && (List.length raw =? 1)%nat
           then ([], Percent (raw ++ [c]))
      else let (ps, st') := plain_step c in (map Lit raw ++ ps, st')
  | Digit raw d =>
      if isDigit c then ([Marker (10 * d + digitValue c) (raw ++ [c])], Plain)
      else let (ps, st') := plain_step c in (Marker d raw :: ps, st')
  end.

Definition scan_end (st : scan) : list piece :=
  match st with
  | Plain => []
  | Percent raw => map Lit raw
  | Digit raw d => [Marker d raw]
  end.

Fixpoint scan_from (st : scan) (s : QString) : list piece :=
  match s with
  | [] => scan_end st
  | c :: s' => let (ps, st') := scan_step st c in ps ++ scan_from st' s'
  end.

Definition pieces (fmt : QString) : list piece := scan_from Plain fmt.

Fixpoint markers (ps : list piece) : list N :=
  match ps with
  | [] => []
  | Lit _ :: ps' => markers ps'
  | Marker n _ :: ps' => n :: markers ps'
  end.

(** The lowest marker number above [lo] (any marker when [lo] is [None]). *)
Fixpoint lowest_above (lo : option N) (ns : list N) : option N :=
  match ns with
  | [] => None
  | n :: ns' =>
      let ok := match lo with Some l => (l <? n)%N | None => true end in
      match lowest_above lo ns' with
      | Some m => if ok && (n <? m)%N then Some n else Some m
      | None => if ok then Some n else None
      end
  end.

(** The replacement of marker [n], if it has one. *)
Fixpoint lookup (n : N) (sub : list (N * QString)) : option QString :=
  match sub with
  | [] => None
  | (m, a) :: sub' => if (n =? m)%N then Some a else lookup n sub'
  end.

Fixpoint render (sub : list (N * QString)) (ps : list piece) : QString :=
  match ps with
  | [] => []
  | Lit c :: ps' => c :: render sub ps'
  | Marker n raw :: ps' =>
      match lookup n sub with
      | Some a => a ++ render sub ps'
      | None => raw ++ render sub ps'
      end
  end.

(** [QString::arg(a)]: every occurrence of the lowest-numbered place
    marker is replaced by [a]; a string without marker is unchanged. *)
Definition arg (fmt a : QString) : QString :=
  let ps := pieces fmt in
  match lowest_above None (markers ps) with
  | Some n => render [(n, a)] ps
  | None => fmt
  end.

(** [QString::arg(a1, a2)]: the lowest-numbered marker is replaced by
    [a1] and the next one by [a2], in one pass over the format, so that
    markers occurring inside [a1] are not replaced. *)
Definition arg2 (fmt a1 a2 : QString) : QString :=
  let ps := pieces fmt in
  match lowest_above None (markers ps) with
  | Some n1 =>
      match lowest_above (Some n1) (markers ps) with
      | Some n2 => render [(n1, a1); (n2, a2)] ps
      | None => render [(n1, a1)] ps
      end
  | None => fmt
  end.

End QStr.

(** ** The em-relative sizes of the stylesheet snippets *)

Module Scaling.
Import CInt QStr.

(** *** The arithmetic on the base unit [em] *)

Section Arithmetic.
Local Open Scope option_scope.

(** "The Runtime Solution", step 2. *)
Record ButtonSizes : Type := {
  paddingVertical : Z;
  paddingHorizontal : Z;
  minWidth : Z
}.

Definition button_sizes (em : Z) : option ButtonSizes :=
  pv <- div em 4 ;;
  ph <- div em 2 ;;
  mw <- mul em 5 ;;
  Some {| paddingVertical := pv; paddingHorizontal := ph; minWidth := mw |}.

(** "A More Complete Real-World Example": the sizes of [main]. *)
Record MainSizes : Type := {
  smallPadding : Z;
  mediumPadding : Z;
  largePadding : Z;
  buttonHeight : Z;
  inputHeight : Z;
  borderRadius : Z;
  iconSize : Z
}.

Definition main_sizes (em : Z) : option MainSizes :=
  sp <- div em 4 ;;
  mp <- div em 2 ;;
  bh <- mul em 2 ;;
  ih <- of_double (dmul (to_double em) (3 # 2)) ;;
  br <- div em 4 ;;
  Some {| smallPadding := sp; mediumPadding := mp; largePadding := em;
          buttonHeight := bh; inputHeight := ih; borderRadius := br;
          iconSize := em |}.

(** The Scaled-Unit Calculator: the mapping from the five fixed ratios
    to the pixel value the snippets compute for it.  The quarter is
    [smallPadding] (also [paddingVertical] and [borderRadius]), the
    half is [mediumPadding] (also [paddingHorizontal]), the double is
    [buttonHeight], 1.5x is [inputHeight] and 5x is [minWidth]. *)
Record Dimensions : Type := {
  quarter : Z;
  half : Z;
  double : Z;
  one_and_half : Z;
  five_times : Z
}.

Definition calculator (em : Z) : option Dimensions :=
  b <- button_sizes em ;;
  m <- main_sizes em ;;
  Some {| quarter := smallPadding m; half := mediumPadding m;
          double := buttonHeight m; one_and_half := inputHeight m;
          five_times := minWidth b |}.

End Arithmetic.

(** The fixed ratios, to state properties of every dimension at once. *)
Inductive ratio : Type := Quarter | Half | Double | OneAndHalf | FiveTimes.

Definition ratio_value (r : ratio) : Q :=
  match r with
  | Quarter => 1 # 4
  | Half => 1 # 2
  | Double => 2 # 1
  | OneAndHalf => 3 # 2
  | FiveTimes => 5 # 1
  end.

Definition dimension (r : ratio) (d : Dimensions) : Z :=
  match r with
  | Quarter => quarter d
  | Half => half d
  | Double => double d
  | OneAndHalf => one_and_half d
  | FiveTimes => five_times d
  end.

(** The exact product [b x ratio]. *)
Definition scaled (em : Z) (r : ratio) : Q := (inject_Z em * ratio_value r)%Q.

(** [n] is an integer nearest to [x] (either neighbour at a tie). *)
Definition nearest_integer (x : Q) (n : Z) : Prop :=
  forall m : Z, (Qabs (x - inject_Z n) <= Qabs (x - inject_Z m))%Q.

(** The mapping in closed form: what the arithmetic yields when nothing
    overflows (see [ScalingFacts.calculator_defined]). *)
Definition exact_dimensions (em : Z) : Dimensions :=
  {| quarter := Z.quot em 4; half := Z.quot em 2; double := em * 2;
     one_and_half := Z.quot (em * 3) 2; five_times := em * 5 |}.

(** The calculator produces no mapping for [em]. *)
Definition rejects (em : Z) : Prop := calculator em = None.

(** *** The snippets as programs on the application *)

(** What the snippets read and write of the [QApplication]. *)
Record QApplication : Type := {
  fontHeight : Z;        (* QFontMetrics(QApplication::font()).height() *)
  styleSheet : QString
}.

Definition M (A : Type) : Type := QApplication -> option (A * QApplication).

Definition ret {A : Type} (a : A) : M A := fun app => Some (a, app).

Definition bind {A B : Type} (m : M A) (f : A -> M B) : M B :=
  fun app =>
    match m app with
    | Some (a, app') => f a app'
    | None => None
    end.

Definition lift {A : Type} (o : option A) : M A :=
  fun app =>
    match o with
    | Some a => Some (a, app)
    | None => None
    end.

Declare Scope app_scope.
Delimit Scope app_scope with app.
Notation "x <- m ;; k" := (bind m (fun x => k))
  (at level 61, m at next level, right associativity) : app_scope.

Section Programs.
Local Open Scope app_scope.

(** [QFontMetrics fm(QApplication::font()); int em = fm.height();] *)
Definition fm_height : M Z := fun app => Some (fontHeight app, app).

(** [qApp->setStyleSheet(stylesheet)] *)
Definition setStyleSheet (s : QString) : M unit :=
  fun app => Some (tt, {| fontHeight := fontHeight app; styleSheet := s |}).

(** Steps 1 and 2 of the runtime solution. *)
Definition scaled_sizes : M ButtonSizes :=
  em <- fm_height ;;
  lift (button_sizes em).

(** Step 3. *)
Definition button_stylesheet (s : ButtonSizes) : QString :=
  arg (arg (arg (qs "QPushButton {"
                 ++ qs "    padding: %1px %2px;"
                 ++ qs "    min-width: %3px;"
                 ++ qs "}")
                (number (paddingVertical s)))
           (number (paddingHorizontal s)))
      (number (minWidth s)).

(** Steps 1 to 4. *)
Definition runtime_solution : M unit :=
  s <- scaled_sizes ;;
  setStyleSheet (button_stylesheet s).

Definition main_stylesheet (s : MainSizes) (inputPadding : Z) : QString :=
  arg (arg (arg (arg (arg (arg
    (qs "QPushButton {"
     ++ qs "    padding: %1px %2px;"
     ++ qs "    min-height: %3px;"
     ++ qs "    border: 1px solid #999;"
     ++ qs "    border-radius: %4px;"
     ++ qs "    background-color: #f0f0f0;"
     ++ qs "}"
     ++ qs "QPushButton:hover {"
     ++ qs "    background-color: #e0e0e0;"
     ++ qs "}"
     ++ qs "QLineEdit {"
     ++ qs "    padding: %5px %2px;"
     ++ qs "    min-height: %6px;"
     ++ qs "    border: 1px solid #ccc;"
     ++ qs "    border-radius: %4px;"
     ++ qs "}")
    (number (smallPadding s)))
    (number (mediumPadding s)))
    (number (buttonHeight s)))
    (number (borderRadius s)))
    (number inputPadding))
    (number (inputHeight s)).

(** The text [main] builds: both occurrences of [%2] and of [%4] are
    filled. *)
Definition main_text (a1 a2 a3 a4 a5 a6 : QString) : QString :=
  qs "QPushButton {    padding: " ++ a1 ++ qs "px " ++ a2
  ++ qs "px;    min-height: " ++ a3
  ++ qs "px;    border: 1px solid #999;    border-radius: " ++ a4
  ++ qs "px;    background-color: #f0f0f0;}"
  ++ qs "QPushButton:hover {    background-color: #e0e0e0;}"
  ++ qs "QLineEdit {    padding: " ++ a5 ++ qs "px " ++ a2
  ++ qs "px;    min-height: " ++ a6
  ++ qs "px;    border: 1px solid #ccc;    border-radius: " ++ a4
  ++ qs "px;}".

(** [main], up to [app.setStyleSheet(style)]. *)
Definition main : M unit :=
  em <- fm_height ;;
  s <- lift (main_sizes em) ;;
  inputPadding <- lift (div (smallPadding s) 2) ;;
  setStyleSheet (main_stylesheet s inputPadding).

End Programs.

End Scaling.

(** ** The layout demo window *)

Module Form.
Import QStr.

Module QLineEdit.
Record t : Type := { text : QString }.
Definition clear (e : t) : t := {| text := [] |}.
End QLineEdit.

Inductive Alignment : Type := AlignLeftVCenter | AlignCenter.

Module QLabel.
Record t : Type := { text : QString; alignment : Alignment }.
Definition clear (l : t) : t := {| text := []; alignment := alignment l |}.
Definition setText (s : QString) (l : t) : t :=
  {| text := s; alignment := alignment l |}.
Definition setAlignment (a : Alignment) (l : t) : t :=
  {| text := text l; alignment := a |}.
End QLabel.

Inductive Button : Type := clearBtn | submitBtn.

Definition buttonText (b : Button) : QString :=
  match b with
  | clearBtn => qs "Clear"
  | submitBtn => qs "Submit"
  end.

Inductive Field : Type := nameEdit | emailEdit.

(** What the constructor puts into the layouts: the form, the status
    label, a stretch and the row of buttons. *)
Inductive BoxItem : Type :=
| BoxStretch
| BoxButton (b : Button).

Inductive Item : Type :=
| FormLayout (rows : list (QString * Field))
| StatusLabel
| Stretch
| ButtonRow (items : list BoxItem).

Record MainWindow : Type := {
  windowTitle : QString;
  size : Z * Z;
  contentsMargins : Z * Z * Z * Z;
  spacing : Z;
  central : list Item;
  m_nameEdit : QLineEdit.t;
  m_emailEdit : QLineEdit.t;
  m_statusLabel : QLabel.t
}.

(** [MainWindow::MainWindow] *)
Definition MainWindow_new : MainWindow :=
  {| windowTitle := qs "Qt Layout Demo";
     size := (400, 200);
     contentsMargins := (16, 16, 16, 16);
     spacing := 12;
     central :=
       [ FormLayout [(qs "Name:", nameEdit); (qs "Email:", emailEdit)];
         StatusLabel;
         Stretch;
         ButtonRow [BoxStretch; BoxButton clearBtn; BoxButton submitBtn] ];
     m_nameEdit := {| QLineEdit.text := [] |};
     m_emailEdit := {| QLineEdit.text := [] |};
     m_statusLabel :=
       QLabel.setAlignment AlignCenter
         {| QLabel.text := []; QLabel.alignment := AlignLeftVCenter |} |}.

Definition with_nameEdit (f : QLineEdit.t -> QLineEdit.t) (w : MainWindow) : MainWindow :=
  {| windowTitle := windowTitle w; size := size w;
     contentsMargins := contentsMargins w; spacing := spacing w;
     central := central w;
     m_nameEdit := f (m_nameEdit w);
     m_emailEdit := m_emailEdit w;
     m_statusLabel := m_statusLabel w |}.

Definition with_emailEdit (f : QLineEdit.t -> QLineEdit.t) (w : MainWindow) : MainWindow :=
  {| windowTitle := windowTitle w; size := size w;
     contentsMargins := contentsMargins w; spacing := spacing w;
     central := central w;
     m_nameEdit := m_nameEdit w;
     m_emailEdit := f (m_emailEdit w);
     m_statusLabel := m_statusLabel w |}.

Definition with_statusLabel (f : QLabel.t -> QLabel.t) (w : MainWindow) : MainWindow :=
  {| windowTitle := windowTitle w; size := size w;
     contentsMargins := contentsMargins w; spacing := spacing w;
     central := central w;
     m_nameEdit := m_nameEdit w;
     m_emailEdit := m_emailEdit w;
     m_statusLabel := f (m_statusLabel w) |}.

(** The text the status label shows when a field is missing: U+26A0
    followed by [" Please fill in all fields."]. *)
Definition warning : QString := 9888%N :: qs " Please fill in all fields.".

(** [MainWindow::onSubmit] *)
Definition onSubmit (w : MainWindow) : MainWindow :=
  let name := trimmed (QLineEdit.text (m_nameEdit w)) in
  let email := trimmed (QLineEdit.text (m_emailEdit w)) in
  if isEmpty name || isEmpty email then
    with_statusLabel (QLabel.setText warning) w
  else
    with_statusLabel
      (QLabel.setText (arg2 (qs "Submitted: %1 <%2>") name email)) w.

(** The lambda connected to [clearBtn]. *)
Definition onClear (w : MainWindow) : MainWindow :=
  with_statusLabel QLabel.clear
    (with_emailEdit QLineEdit.clear
       (with_nameEdit QLineEdit.clear w)).

(** The two [connect] calls: what a click on a button runs. *)
Definition clicked (b : Button) (w : MainWindow) : MainWindow :=
  match b with
  | submitBtn => onSubmit w
  | clearBtn => onClear w
  end.

(** The part of the window other than the three texts. *)
Definition frame (w : MainWindow)
  : QString * (Z * Z) * (Z * Z * Z * Z) * Z * list Item * Alignment :=
  (windowTitle w, size w, contentsMargins w, spacing w, central w,
   QLabel.alignment (m_statusLabel w)).

End Form.

(** ** The other stylesheet snippets *)

Module Styles.
Import CInt QStr Scaling.

Section Snippets.
Local Open Scope app_scope.

(** "Stylesheets and DPI": the stylesheet generated at runtime and set on
    the application. *)
Definition stylesheets_and_dpi : M unit :=
  em <- fm_height ;;
  a <- lift (div em 4) ;;
  b <- lift (div em 2) ;;
  c <- lift (mul em 5) ;;
  setStyleSheet
    (arg (arg (arg (qs "QPushButton { padding: %1px %2px; min-width: %3px; }")
                   (number a)) (number b)) (number c)).

End Snippets.

(** The window of "When to Calculate the Stylesheet": of its state, the
    style sheet it sets on itself. *)
Record StyledWindow : Type := { windowStyleSheet : QString }.

Inductive QEventType : Type :=
| ScreenChangeEvent
| OtherEvent (type : N).

Section Window.
Local Open Scope option_scope.

(** [MainWindow::applyScaledStylesheet] *)
Definition applyScaledStylesheet (app : QApplication) (w : StyledWindow)
  : option StyledWindow :=
  let em := fontHeight app in
  a <- div em 4 ;;
  b <- div em 2 ;;
  Some {| windowStyleSheet :=
            arg (arg (qs "QPushButton { padding: %1px %2px; }") (number a))
                (number b) |}.

(** The constructor applies the stylesheet to the new window, whose style
    sheet is empty before. *)
Definition StyledWindow_new (app : QApplication) : option StyledWindow :=
  applyScaledStylesheet app {| windowStyleSheet := [] |}.

(** [MainWindow::changeEvent]; the base class handler it ends with leaves
    the style sheet as it is. *)
Definition changeEvent (e : QEventType) (app : QApplication) (w : StyledWindow)
  : option StyledWindow :=
  match e with
  | ScreenChangeEvent => applyScaledStylesheet app w
  | OtherEvent _ => Some w
  end.

Definition isScreenChange (e : QEventType) : bool :=
  match e with
  | ScreenChangeEvent => true
  | OtherEvent _ => false
  end.

(** A sequence of events delivered to the window, the font unchanged. *)
Fixpoint deliver (es : list QEventType) (app : QApplication) (w : StyledWindow)
  : option StyledWindow :=
  match es with
  | [] => Some w
  | e :: es' => w' <- changeEvent e app w ;; deliver es' app w'
  end.

(** "Alternative: Per-Widget Inline Styles": the button's own font and
    style sheet. *)
Record QPushButton : Type := {
  buttonFontHeight : Z;      (* QFontMetrics(button->font()).height() *)
  buttonStyleSheet : QString
}.

Definition inline_style (button : QPushButton) : option QPushButton :=
  let em := buttonFontHeight button in
  a <- div em 4 ;;
  b <- div em 2 ;;
  c <- mul em 5 ;;
  Some {| buttonFontHeight := buttonFontHeight button;
          buttonStyleSheet :=
            arg (arg (arg (qs "padding: %1px %2px; min-width: %3px;")
                          (number a)) (number b)) (number c) |}.

End Window.

End Styles.

(** ** Formats with text that is not scanned

    A format whose pieces of inserted text ([Var]) are known to hold no
    percent sign can be scanned one chunk at a time: the scanner crosses
    such a text in its plain state and emits it as literals. *)

Module Template.
Import QStr.

Inductive chunk : Type :=
| Txt (s : QString)
| Var (a : QString).

Definition chunk_text (c : chunk) : QString :=
  match c with
  | Txt s => s
  | Var a => a
  end.

Fixpoint flat (t : list chunk) : QString :=
  match t with
  | [] => []
  | c :: t' => chunk_text c ++ flat t'
  end.

Definition no_percent (s : QString) : bool :=
  forallb (fun c => negb (c =? percent)%N) s.

Fixpoint vars_ok (t : list chunk) : bool :=
  match t with
  | [] => true
  | Txt _ :: t' => vars_ok t'
  | Var a :: t' => no_percent a && vars_ok t'
  end.

Inductive spiece : Type :=
| SP (p : piece)
| SV (a : QString).

(** The pieces completed while scanning [s] and the state reached. *)
Fixpoint scan_text (st : scan) (s : QString) : list piece * scan :=
  match s with
  | [] => ([], st)
  | c :: s' =>
      let (ps, st') := scan_step st c in
      let (ps', st'') := scan_text st' s' in
      (ps ++ ps', st'')
  end.

Fixpoint sscan (st : scan) (t : list chunk) : option (list spiece) :=
  match t with
  | [] => Some (map SP (scan_end st))
  | Txt s :: t' =>
      let (ps, st') := scan_text st s in
      option_map (app (map SP ps)) (sscan st' t')
  | Var a :: t' =>
      match st with
      | Plain => option_map (cons (SV a)) (sscan Plain t')
      | _ => None
      end
  end.

Fixpoint svars_ok (sp : list spiece) : bool :=
  match sp with
  | [] => true
  | SP _ :: sp' => svars_ok sp'
  | SV a :: sp' => no_percent a && svars_ok sp'
  end.

Fixpoint expand (sp : list spiece) : list piece :=
  match sp with
  | [] => []
  | SP p :: sp' => p :: expand sp'
  | SV a :: sp' => map Lit a ++ expand sp'
  end.

Fixpoint smarkers (sp : list spiece) : list N :=
  match sp with
  | [] => []
  | SP (Marker n _) :: sp' => n :: smarkers sp'
  | _ :: sp' => smarkers sp'
  end.

Fixpoint srender (sub : list (N * QString)) (sp : list spiece) : list chunk :=
  match sp with
  | [] => []
  | SP (Lit c) :: sp' => Txt [c] :: srender sub sp'
  | SP (Marker n raw) :: sp' =>
      match lookup n sub with
      | Some a => Var a :: srender sub sp'
      | None => Txt raw :: srender sub sp'
      end
  | SV a :: sp' => Var a :: srender sub sp'
  end.

(** [arg] on a chunked format. *)
Definition sarg (t : list chunk) (x : QString) : option (list chunk) :=
  match sscan Plain t with
  | Some sp =>
      match lowest_above None (smarkers sp) with
      | Some n => Some (srender [(n, x)] sp)
      | None => Some t
      end
  | None => None
  end.

(** A chain [.arg(x1).arg(x2)...]. *)
Fixpoint sargs (t : list chunk) (xs : list QString) : option (list chunk) :=
  match xs with
  | [] => Some t
  | x :: xs' =>
      match sarg t x with
      | Some t' => sargs t' xs'
      | None => None
      end
  end.

End Template.

(** ** Clicks on the form's buttons *)

Module FormRun.
Import QStr Form.

(** The window after the buttons [bs] were clicked in turn. *)
Definition run (bs : list Button) (w : MainWindow) : MainWindow :=
  fold_left (fun w' b => clicked b w') bs w.

(** The window with [n] and [e] in the two line edits. *)
Definition typed (n e : QString) (w : MainWindow) : MainWindow :=
  with_emailEdit (fun _ => {| QLineEdit.text := e |})
    (with_nameEdit (fun _ => {| QLineEdit.text := n |}) w).

Definition status (w : MainWindow) : QString := QLabel.text (m_statusLabel w).

Definition isClear (b : Button) : bool :=
  match b with
  | clearBtn => true
  | submitBtn => false
  end.

End FormRun.

(** * Properties *)

(** ** Checked [int] arithmetic *)

Module CIntFacts.
Import CInt.

Lemma in_range_spec (z : Z) :
  in_range z = true <-> INT_MIN <= z <= INT_MAX.
Proof.
  unfold in_range. rewrite andb_true_iff, !Z.leb_le. tauto.
Qed.

Lemma checked_in (z : Z) :
  INT_MIN <= z <= INT_MAX -> checked z = Some z.
Proof.
  intros H. unfold checked. apply in_range_spec in H. now rewrite H.
Qed.

Lemma checked_Some (z v : Z) :
  checked z = Some v -> v = z /\ INT_MIN <= z <= INT_MAX.
Proof.
  unfold checked. destruct (in_range z) eqn:E; [|discriminate].
  intros [= <-]. split; [reflexivity | now apply in_range_spec].
Qed.

Lemma INT_MIN_val : INT_MIN = -2147483648.
Proof. reflexivity. Qed.

Lemma INT_MAX_val : INT_MAX = 2147483647.
Proof. reflexivity. Qed.

End CIntFacts.

(** ** The calculator *)

Module ScalingFacts.
Import CInt CIntFacts Scaling.

Lemma quot_bounds (a k : Z) :
  0 < k -> - Z.abs a <= Z.quot a k <= Z.abs a.
Proof.
  intros Hk.
  destruct (Z.le_gt_cases 0 a) as [Ha | Ha].
  - rewrite Z.quot_div_nonneg by lia.
    assert (0 <= a / k) by (apply Z.div_pos; lia).
    assert (a / k <= a) by (apply Z.div_le_upper_bound; nia).
    lia.
  - assert (E : Z.quot a k = - Z.quot (- a) k)
      by (rewrite Z.quot_opp_l by lia; lia).
    rewrite E, Z.quot_div_nonneg by lia.
    assert (0 <= (- a) / k) by (apply Z.div_pos; lia).
    assert ((- a) / k <= - a) by (apply Z.div_le_upper_bound; nia).
    lia.
Qed.

(** The calculator is defined on every base whose fivefold is an [int]. *)
Lemma calculator_defined (em : Z) :
  INT_MIN <= em * 5 <= INT_MAX ->
  calculator em = Some (exact_dimensions em).
Proof.
  intros H. rewrite INT_MIN_val, INT_MAX_val in H.
  pose proof (quot_bounds em 4 ltac:(lia)) as H4.
  pose proof (quot_bounds em 2 ltac:(lia)) as H2.
  pose proof (quot_bounds (em * 3) 2 ltac:(lia)) as H3.
  unfold calculator, button_sizes, main_sizes, div, mul, of_double,
    dmul, to_double.
  cbn [Z.eqb obind Qnum Qden Qmult inject_Z Pos.mul].
  rewrite !Z.mul_1_l || idtac.
  rewrite (checked_in (Z.quot em 4)) by (rewrite INT_MIN_val, INT_MAX_val; lia).
  rewrite (checked_in (Z.quot em 2)) by (rewrite INT_MIN_val, INT_MAX_val; lia).
  rewrite (checked_in (em * 5)) by (rewrite INT_MIN_val, INT_MAX_val; lia).
  rewrite (checked_in (em * 2)) by (rewrite INT_MIN_val, INT_MAX_val; lia).
  cbn [obind].
  rewrite (checked_in (Z.quot (em * 3) 2)) by (rewrite INT_MIN_val, INT_MAX_val; lia).
  reflexivity.
Qed.

(** Whatever mapping the calculator returns is the exact one, and the
    base's fivefold is then an [int]. *)
Lemma calculator_Some (em : Z) (d : Dimensions) :
  calculator em = Some d ->
  d = exact_dimensions em /\ INT_MIN <= em * 5 <= INT_MAX.
Proof.
  unfold calculator, button_sizes, main_sizes, div, mul, of_double,
    dmul, to_double.
  cbn [Z.eqb obind Qnum Qden Qmult inject_Z Pos.mul].
  destruct (checked (Z.quot em 4)) as [q|] eqn:Eq; [|discriminate].
  destruct (checked (Z.quot em 2)) as [h|] eqn:Eh; [|discriminate].
  destruct (checked (em * 5)) as [f|] eqn:Ef; [|discriminate].
  destruct (checked (em * 2)) as [b|] eqn:Eb; [|discriminate].
  cbn [obind].
  destruct (checked (Z.quot (em * 3) 2)) as [i|] eqn:Ei; [|discriminate].
  cbn [obind smallPadding mediumPadding buttonHeight inputHeight minWidth].
  intros [= <-].
  apply checked_Some in Eq, Eh, Ef, Eb, Ei.
  destruct Eq as [-> _], Eh as [-> _], Ef as [-> Hf], Eb as [-> _], Ei as [-> _].
  split; [reflexivity | exact Hf].
Qed.

Lemma dimension_exact (em : Z) (r : ratio) :
  dimension r (exact_dimensions em) =
  match r with
  | Quarter => Z.quot em 4
  | Half => Z.quot em 2
  | Double => em * 2
  | OneAndHalf => Z.quot (em * 3) 2
  | FiveTimes => em * 5
  end.
Proof. destruct r; reflexivity. Qed.

Lemma Qfloor_scaled (em : Z) (r : ratio) :
  Qfloor (scaled em r) =
  match r with
  | Quarter => em / 4
  | Half => em / 2
  | Double => em * 2
  | OneAndHalf => (em * 3) / 2
  | FiveTimes => em * 5
  end.
Proof.
  destruct r; unfold scaled, ratio_value, Qfloor, Qmult, inject_Z;
    cbn [Qnum Qden Pos.mul]; rewrite ?Z.mul_1_r, ?Z.div_1_r; reflexivity.
Qed.

(** On a non-negative base the truncated quotient is the floor. *)
Lemma dimension_floor (em : Z) (r : ratio) :
  0 <= em -> dimension r (exact_dimensions em) = Qfloor (scaled em r).
Proof.
  intros H. rewrite dimension_exact, Qfloor_scaled.
  destruct r; try reflexivity; apply Z.quot_div_nonneg; lia.
Qed.

Lemma dimension_nonneg (em : Z) (r : ratio) :
  0 <= em -> 0 <= dimension r (exact_dimensions em).
Proof.
  intros H. rewrite dimension_exact.
  destruct r; try lia; apply Z.quot_pos; lia.
Qed.

Lemma dimension_nonpos (em : Z) (r : ratio) :
  em <= 0 -> dimension r (exact_dimensions em) <= 0.
Proof.
  intros H. rewrite dimension_exact.
  destruct r; try lia.
  - assert (0 <= Z.quot (- em) 4) by (apply Z.quot_pos; lia).
    rewrite Z.quot_opp_l in * by lia. lia.
  - assert (0 <= Z.quot (- em) 2) by (apply Z.quot_pos; lia).
    rewrite Z.quot_opp_l in * by lia. lia.
  - assert (0 <= Z.quot (- (em * 3)) 2) by (apply Z.quot_pos; lia).
    rewrite Z.quot_opp_l in * by lia. lia.
Qed.

Lemma dimension_monotone (b1 b2 : Z) (r : ratio) :
  b1 <= b2 ->
  dimension r (exact_dimensions b1) <= dimension r (exact_dimensions b2).
Proof.
  intros H. rewrite !dimension_exact.
  destruct r; try lia; apply Z.quot_le_mono; lia.
Qed.

(** The [double] product [em * 1.5] of an [int] is a half-integer whose
    numerator fits the 53-bit significand: binary64 computes it without
    rounding. *)
Lemma inputHeight_product_exact (em : Z) :
  in_range em = true ->
  Qden (dmul (to_double em) (3 # 2)) = 2%positive /\
  Z.abs (Qnum (dmul (to_double em) (3 # 2))) < 2 ^ 53.
Proof.
  intros H. apply in_range_spec in H.
  rewrite INT_MIN_val, INT_MAX_val in H.
  unfold dmul, to_double, Qmult, inject_Z. cbn [Qnum Qden Pos.mul].
  split; [reflexivity | ].
  change (2 ^ 53) with 9007199254740992. lia.
Qed.

(** The three names of the quarter and the two names of the half agree. *)
Lemma snippet_names_agree (em : Z) (b : ButtonSizes) (m : MainSizes) :
  button_sizes em = Some b -> main_sizes em = Some m ->
  paddingVertical b = smallPadding m /\
  borderRadius m = smallPadding m /\
  paddingHorizontal b = mediumPadding m /\
  largePadding m = em /\ iconSize m = em.
Proof.
  unfold button_sizes, main_sizes.
  destruct (div em 4) as [q|]; [|discriminate].
  destruct (div em 2) as [h|]; [|discriminate].
  cbn [obind].
  destruct (mul em 5) as [f|]; [|discriminate].
  destruct (mul em 2) as [t|]; [|discriminate].
  cbn [obind].
  destruct (of_double _) as [i|]; [|discriminate].
  cbn [obind].
  intros [= <-] [= <-]. cbn. repeat split.
Qed.

Example runtime_solution_16 :
  option_map (fun r => styleSheet (snd r))
    (runtime_solution {| fontHeight := 16; styleSheet := [] |}) =
  Some (QStr.qs "QPushButton {    padding: 4px 8px;    min-width: 80px;}").
Proof. reflexivity. Qed.

Example main_sizes_17 :
  main_sizes 17 =
    Some {| smallPadding := 4; mediumPadding := 8; largePadding := 17;
            buttonHeight := 34; inputHeight := 25; borderRadius := 4;
            iconSize := 17 |}.
Proof. reflexivity. Qed.

(** Beyond [INT_MAX / 5] the product [em * 5] overflows. *)
Example calculator_overflow : calculator 429496730 = None.
Proof. reflexivity. Qed.

(** *** The claims on the Scaled-Unit Calculator *)

(** C1, as the code has it: for every positive base value [b] whose
    fivefold is an [int], the calculator returns a mapping, and each
    derived dimension is a non-negative integer equal to the floor of
    [b x ratio] (the product truncated toward zero), not its nearest
    integer. *)
Theorem dimensions_are_floors (em : Z) :
  0 < em -> em * 5 <= INT_MAX ->
  exists d, calculator em = Some d /\
    forall r, dimension r d = Qfloor (scaled em r) /\ 0 <= dimension r d.
Proof.
  intros Hpos Hmax. exists (exact_dimensions em). split.
  - apply calculator_defined. rewrite INT_MIN_val. lia.
  - intros r. split; [apply dimension_floor | apply dimension_nonneg]; lia.
Qed.

Lemma dimensions_are_floors_witness :
  exists d, calculator 19 = Some d /\
    forall r, dimension r d = Qfloor (scaled 19 r) /\ 0 <= dimension r d.
Proof.
  apply (dimensions_are_floors 19); [lia | vm_compute; discriminate].
Defined.

(** C1 as stated fails: at base 19 the quarter is 4, while 19 x 1/4 =
    4.75 is nearer to 5. *)
Lemma quarter_of_19_not_nearest :
  exists d, calculator 19 = Some d /\ dimension Quarter d = 4 /\
    ~ nearest_integer (scaled 19 Quarter) (dimension Quarter d).
Proof.
  eexists. split; [reflexivity | ]. split; [reflexivity | ].
  intros H. specialize (H 5). vm_compute in H. apply H. reflexivity.
Qed.

(** C2, as the code has it: the snippets have no guard on the base
    value.  For every base value whose fivefold is an [int] (zero and
    negative ones included) the calculator returns a complete mapping
    and no error; at zero every dimension is zero, at a negative base
    every dimension is at most zero and at a positive base at least
    zero. *)
Theorem calculator_never_rejects (em : Z) :
  INT_MIN <= em * 5 -> em * 5 <= INT_MAX ->
  exists d, calculator em = Some d /\ ~ rejects em /\
    forall r, (em = 0 -> dimension r d = 0) /\
              (em < 0 -> dimension r d <= 0) /\
              (0 < em -> 0 <= dimension r d).
Proof.
  intros Hmin Hmax.
  pose proof (calculator_defined em (conj Hmin Hmax)) as E.
  exists (exact_dimensions em). split; [exact E | ]. split.
  - unfold rejects. rewrite E. discriminate.
  - intros r. split; [ | split ].
    + intros ->. destruct r; reflexivity.
    + intros H. apply dimension_nonpos. lia.
    + intros H. apply dimension_nonneg. lia.
Qed.

Lemma calculator_never_rejects_witness :
  exists d, calculator (-16) = Some d /\ ~ rejects (-16) /\
    forall r, (-16 = 0 -> dimension r d = 0) /\
              (-16 < 0 -> dimension r d <= 0) /\
              (0 < -16 -> 0 <= dimension r d).
Proof.
  apply (calculator_never_rejects (-16)); vm_compute; discriminate.
Defined.

(** C2 as stated fails: the bases 0 and -16 are not rejected, the
    calculator returns a mapping for each. *)
Lemma zero_and_negative_base_accepted :
  calculator 0 =
    Some {| quarter := 0; half := 0; double := 0; one_and_half := 0;
            five_times := 0 |} /\
  calculator (-16) =
    Some {| quarter := -4; half := -8; double := -32; one_and_half := -24;
            five_times := -80 |} /\
  ~ rejects 0 /\ ~ rejects (-16).
Proof.
  repeat split; try reflexivity; unfold rejects; vm_compute; discriminate.
Qed.

(** C3, as the code has it: for positive bases [b1 < b2] with the
    fivefold of [b2] an [int], both mappings exist and each dimension
    computed from [b1] is at most the corresponding dimension computed
    from [b2]. *)
Theorem calculator_monotone (b1 b2 : Z) :
  0 < b1 -> b1 < b2 -> b2 * 5 <= INT_MAX ->
  exists d1 d2,
    calculator b1 = Some d1 /\ calculator b2 = Some d2 /\
    forall r, dimension r d1 <= dimension r d2.
Proof.
  intros Hpos Hlt Hmax.
  exists (exact_dimensions b1), (exact_dimensions b2).
  split; [ | split ].
  - apply calculator_defined. rewrite INT_MIN_val. lia.
  - apply calculator_defined. rewrite INT_MIN_val. lia.
  - intros r. apply dimension_monotone. lia.
Qed.

Lemma calculator_monotone_witness :
  exists d1 d2,
    calculator 17 = Some d1 /\ calculator 18 = Some d2 /\
    forall r, dimension r d1 <= dimension r d2.
Proof.
  apply (calculator_monotone 17 18); [lia | lia | vm_compute; discriminate].
Defined.

(** C3 as stated fails: for the positive bases 429496729 < 429496730 the
    second product [em * 5] overflows, so that there is no mapping for the
    larger base to compare with. *)
Lemma monotone_fails_beyond_range :
  0 < 429496729 /\ 429496729 < 429496730 /\
  (exists d1, calculator 429496729 = Some d1 /\ five_times d1 = 2147483645) /\
  ~ (exists d1 d2,
       calculator 429496729 = Some d1 /\ calculator 429496730 = Some d2 /\
       forall r, dimension r d1 <= dimension r d2).
Proof.
  split; [lia | ]. split; [lia | ]. split.
  - eexists. split; reflexivity.
  - intros (d1 & d2 & _ & E & _). vm_compute in E. discriminate.
Qed.

(** C5: base 16 yields quarter 4, half 8, double 32, 1.5x 24, 5x 80. *)
Theorem calculator_16 :
  calculator 16 =
    Some {| quarter := 4; half := 8; double := 32; one_and_half := 24;
            five_times := 80 |}.
Proof. reflexivity. Qed.

(** C6: base 32 yields quarter 8, half 16, double 64, 1.5x 48, 5x 160,
    each exactly twice the dimension for base 16. *)
Theorem calculator_32 :
  calculator 32 =
    Some {| quarter := 8; half := 16; double := 64; one_and_half := 48;
            five_times := 160 |} /\
  exists d16 d32, calculator 16 = Some d16 /\ calculator 32 = Some d32 /\
    forall r, dimension r d32 = 2 * dimension r d16.
Proof.
  split; [reflexivity | ].
  do 2 eexists. split; [reflexivity | ]. split; [reflexivity | ].
  intros r. destruct r; reflexivity.
Qed.

(** C7: base 20 yields quarter 5, half 10, double 40, 1.5x 30, 5x 100. *)
Theorem calculator_20 :
  calculator 20 =
    Some {| quarter := 5; half := 10; double := 40; one_and_half := 30;
            five_times := 100 |}.
Proof. reflexivity. Qed.

(** C8, as the code has it: for every positive base value whose fivefold
    is an [int], the calculator produces all five dimensions and every one
    of them is a non-negative integer. *)
Theorem dimensions_nonnegative (em : Z) :
  0 < em -> em * 5 <= INT_MAX ->
  exists d, calculator em = Some d /\
    0 <= quarter d /\ 0 <= half d /\ 0 <= double d /\
    0 <= one_and_half d /\ 0 <= five_times d.
Proof.
  intros Hpos Hmax. exists (exact_dimensions em). split.
  - apply calculator_defined. rewrite INT_MIN_val. lia.
  - pose proof (fun r => dimension_nonneg em r ltac:(lia)) as H.
    split; [apply (H Quarter) | ].
    split; [apply (H Half) | ].
    split; [apply (H Double) | ].
    split; [apply (H OneAndHalf) | apply (H FiveTimes)].
Qed.

Lemma dimensions_nonnegative_witness :
  exists d, calculator 21 = Some d /\
    0 <= quarter d /\ 0 <= half d /\ 0 <= double d /\
    0 <= one_and_half d /\ 0 <= five_times d.
Proof.
  apply (dimensions_nonnegative 21); [lia | vm_compute; discriminate].
Defined.

(** C8 as stated fails: at the positive base 429496730 the product
    [em * 5] overflows and the calculator produces no mapping of
    non-negative dimensions, while it does at 429496729. *)
Lemma nonnegative_fails_beyond_range :
  0 < 429496730 /\
  calculator 429496729 =
    Some {| quarter := 107374182; half := 214748364; double := 858993458;
            one_and_half := 644245093; five_times := 2147483645 |} /\
  ~ (exists d, calculator 429496730 = Some d /\
       0 <= quarter d /\ 0 <= half d /\ 0 <= double d /\
       0 <= one_and_half d /\ 0 <= five_times d).
Proof.
  split; [lia | ]. split; [reflexivity | ].
  intros (d & E & _). vm_compute in E. discriminate.
Qed.

End ScalingFacts.

(** ** The form *)

Module FormFacts.
Import QStr Form.

Lemma isEmpty_spec (s : QString) : isEmpty s = true <-> s = [].
Proof. destruct s; cbn; split; congruence. Qed.

Lemma dropWhile_all (p : QChar -> bool) (s : QString) :
  forallb p s = true -> dropWhile p s = [].
Proof.
  induction s as [|c s IH]; cbn; [reflexivity | ].
  intros H. apply andb_true_iff in H. destruct H as [Hc Hs].
  rewrite Hc. apply IH, Hs.
Qed.

(** Whitespace-only text is empty once trimmed. *)
Lemma trimmed_all_space (s : QString) :
  forallb isSpace s = true -> trimmed s = [].
Proof.
  intros H. unfold trimmed. rewrite (dropWhile_all _ _ H). reflexivity.
Qed.

(** What [dropWhile] keeps starts with a character that fails the test. *)
Lemma dropWhile_head (p : QChar -> bool) (s : QString) (c : QChar) (t : QString) :
  dropWhile p s = c :: t -> p c = false.
Proof.
  induction s as [|a s IH]; cbn; [discriminate | ].
  destruct (p a) eqn:E; [exact IH | ].
  intros [= <- _]. exact E.
Qed.

(** A trimmed text neither starts nor ends with whitespace. *)
Lemma trimmed_no_outer_space (s : QString) :
  (forall c t, trimmed s = c :: t -> isSpace c = false) /\
  (forall c t, trimmed s = t ++ [c] -> isSpace c = false).
Proof.
  unfold trimmed.
  set (l := dropWhile isSpace s).
  assert (Hl : forall c t, l = c :: t -> isSpace c = false)
    by (intros c t; apply dropWhile_head).
  set (k := dropWhile isSpace (rev l)).
  assert (Hk : forall c t, k = c :: t -> isSpace c = false)
    by (intros c t; apply dropWhile_head).
  assert (Hsuf : exists pre, rev l = pre ++ k).
  { unfold k. generalize (rev l). intros u.
    induction u as [|a u [pre IH]]; cbn.
    - exists []. reflexivity.
    - destruct (isSpace a).
      + exists (a :: pre). cbn. now rewrite <- IH.
      + exists []. reflexivity. }
  split.
  - intros c t E.
    destruct Hsuf as [pre Hpre].
    assert (El : l = rev k ++ rev pre)
      by (rewrite <- (rev_involutive l), Hpre, rev_app_distr; reflexivity).
    rewrite E in El. cbn in El. apply (Hl c _ El).
  - intros c t E.
    assert (Ek : k = c :: rev t).
    { rewrite <- (rev_involutive k), E, rev_app_distr. reflexivity. }
    apply (Hk c _ Ek).
Qed.

(** The message [onSubmit] builds from the two trimmed texts. *)
Lemma arg2_submitted (name email : QString) :
  arg2 (qs "Submitted: %1 <%2>") name email =
  qs "Submitted: " ++ name ++ qs " <" ++ email ++ qs ">".
Proof. reflexivity. Qed.

Lemma submitted_not_warning (name email : QString) :
  qs "Submitted: " ++ name ++ qs " <" ++ email ++ qs ">" <> warning.
Proof. cbn. discriminate. Qed.

(** [onSubmit] writes the status label only. *)
Lemma onSubmit_frame (w : MainWindow) :
  m_nameEdit (onSubmit w) = m_nameEdit w /\
  m_emailEdit (onSubmit w) = m_emailEdit w /\
  frame (onSubmit w) = frame w.
Proof.
  unfold onSubmit.
  destruct (isEmpty _ || isEmpty _); repeat split.
Qed.

Example onSubmit_filled :
  QLabel.text (m_statusLabel (onSubmit
    (with_emailEdit (fun _ => {| QLineEdit.text := qs "ada@example.org " |})
      (with_nameEdit (fun _ => {| QLineEdit.text := qs "  Ada L. " |})
         MainWindow_new)))) =
  qs "Submitted: Ada L. <ada@example.org>".
Proof. reflexivity. Qed.

Example onSubmit_blank_name :
  QLabel.text (m_statusLabel (onSubmit
    (with_emailEdit (fun _ => {| QLineEdit.text := qs "ada@example.org" |})
      (with_nameEdit (fun _ => {| QLineEdit.text := qs "   " |})
         MainWindow_new)))) = warning.
Proof. reflexivity. Qed.

(** Both texts are substituted in one pass: a marker typed into the name
    stays as it is. *)
Example onSubmit_marker_in_name :
  QLabel.text (m_statusLabel (onSubmit
    (with_emailEdit (fun _ => {| QLineEdit.text := qs "a@b" |})
      (with_nameEdit (fun _ => {| QLineEdit.text := qs "%2" |})
         MainWindow_new)))) = qs "Submitted: %2 <a@b>".
Proof. reflexivity. Qed.

(** C9: [onSubmit] sets the status label to the warning text exactly when
    the name or the email is empty after trimming, which is the case for
    whitespace-only input; otherwise it sets it to ["Submitted: "], the
    trimmed name, a space and the trimmed email in angle brackets. *)
Theorem onSubmit_status (w : MainWindow) :
  let name := trimmed (QLineEdit.text (m_nameEdit w)) in
  let email := trimmed (QLineEdit.text (m_emailEdit w)) in
  let status := QLabel.text (m_statusLabel (onSubmit w)) in
  (status = warning <-> name = [] \/ email = []) /\
  (status = warning \/
   status = qs "Submitted: " ++ name ++ qs " <" ++ email ++ qs ">") /\
  (forallb isSpace (QLineEdit.text (m_nameEdit w)) = true \/
   forallb isSpace (QLineEdit.text (m_emailEdit w)) = true ->
   status = warning).
Proof.
  intros name email status.
  assert (Hs : status =
            if isEmpty name || isEmpty email then warning
            else qs "Submitted: " ++ name ++ qs " <" ++ email ++ qs ">").
  { unfold status, onSubmit. fold name email.
    destruct (isEmpty name || isEmpty email); cbn -[arg2 qs warning app].
    - reflexivity.
    - apply arg2_submitted. }
  assert (Hiff : status = warning <-> name = [] \/ email = []).
  { rewrite Hs. destruct (isEmpty name || isEmpty email) eqn:E.
    - apply orb_true_iff in E. rewrite !isEmpty_spec in E. tauto.
    - apply orb_false_iff in E. destruct E as [En Ee].
      split.
      + intros H. exfalso. exact (submitted_not_warning _ _ H).
      + intros [H | H]; apply isEmpty_spec in H; congruence. }
  split; [exact Hiff | ]. split.
  - rewrite Hs. destruct (isEmpty name || isEmpty email); auto.
  - intros [H | H]; apply Hiff; [left | right]; apply trimmed_all_space, H.
Qed.

(** C10: the Clear button empties the text of the name edit, of the
    email edit and of the status label, and leaves the rest of the window
    unchanged. *)
Theorem clear_empties_three_texts (w : MainWindow) :
  let w' := clicked clearBtn w in
  QLineEdit.text (m_nameEdit w') = [] /\
  QLineEdit.text (m_emailEdit w') = [] /\
  QLabel.text (m_statusLabel w') = [] /\
  frame w' = frame w /\
  w' = {| windowTitle := windowTitle w; size := size w;
          contentsMargins := contentsMargins w; spacing := spacing w;
          central := central w;
          m_nameEdit := {| QLineEdit.text := [] |};
          m_emailEdit := {| QLineEdit.text := [] |};
          m_statusLabel :=
            {| QLabel.text := [];
               QLabel.alignment := QLabel.alignment (m_statusLabel w) |} |}.
Proof.
  cbn. repeat split.
Qed.

End FormFacts.

(** ** Chained [arg] on formats with inserted text *)

Module TemplateFacts.
Import QStr Template.

Lemma scan_from_app (s : QString) : forall (st : scan) (t : QString),
  scan_from st (s ++ t) =
  fst (scan_text st s) ++ scan_from (snd (scan_text st s)) t.
Proof.
  induction s as [|c s IH]; intros st t; cbn [app scan_from scan_text].
  - reflexivity.
  - destruct (scan_step st c) as [ps st'].
    rewrite IH. destruct (scan_text st' s) as [ps' st''].
    cbn [fst snd]. now rewrite app_assoc.
Qed.

Lemma scan_text_plain (a : QString) :
  no_percent a = true -> scan_text Plain a = (map Lit a, Plain).
Proof.
  induction a as [|c a IH]; cbn [no_percent forallb scan_text map].
  - reflexivity.
  - intros H. apply andb_true_iff in H. destruct H as [Hc Ha].
    unfold scan_step, plain_step.
    apply negb_true_iff in Hc. rewrite Hc.
    fold (no_percent a) in Ha. rewrite (IH Ha). reflexivity.
Qed.

Lemma expand_SP_app (ps : list piece) (sp : list spiece) :
  expand (map SP ps ++ sp) = ps ++ expand sp.
Proof.
  induction ps as [|p ps IH]; cbn; [reflexivity | now rewrite IH].
Qed.

Lemma sscan_sound (t : list chunk) : forall (st : scan) (sp : list spiece),
  vars_ok t = true -> sscan st t = Some sp ->
  scan_from st (flat t) = expand sp.
Proof.
  induction t as [|[s|a] t IH]; intros st sp Hok Hs; cbn [flat chunk_text].
  - cbn in Hs. injection Hs as <-.
    rewrite <- (app_nil_r (map SP (scan_end st))), expand_SP_app.
    cbn. now rewrite app_nil_r.
  - cbn [sscan vars_ok] in *. rewrite scan_from_app.
    destruct (scan_text st s) as [ps st']. cbn [fst snd].
    destruct (sscan st' t) as [sp'|] eqn:E; [|discriminate].
    cbn in Hs. injection Hs as <-.
    rewrite expand_SP_app, (IH st' sp' Hok E). reflexivity.
  - cbn [sscan vars_ok] in *.
    apply andb_true_iff in Hok. destruct Hok as [Ha Hok].
    destruct st; try discriminate.
    destruct (sscan Plain t) as [sp'|] eqn:E; [|discriminate].
    cbn in Hs. injection Hs as <-.
    rewrite scan_from_app, (scan_text_plain a Ha). cbn [fst snd expand].
    rewrite (IH Plain sp' Hok E). reflexivity.
Qed.

Lemma markers_lits (a : QString) (ps : list piece) :
  markers (map Lit a ++ ps) = markers ps.
Proof.
  induction a as [|c a IH]; cbn; [reflexivity | exact IH].
Qed.

Lemma markers_expand (sp : list spiece) : markers (expand sp) = smarkers sp.
Proof.
  induction sp as [|[[c|n raw]|a] sp IH]; cbn [expand markers smarkers].
  - reflexivity.
  - exact IH.
  - now rewrite IH.
  - now rewrite markers_lits.
Qed.

Lemma render_lits (sub : list (N * QString)) (a : QString) (ps : list piece) :
  render sub (map Lit a ++ ps) = a ++ render sub ps.
Proof.
  induction a as [|c a IH]; cbn; [reflexivity | now rewrite IH].
Qed.

Lemma render_expand (sub : list (N * QString)) (sp : list spiece) :
  render sub (expand sp) = flat (srender sub sp).
Proof.
  induction sp as [|[[c|n raw]|a] sp IH];
    cbn [expand render srender flat chunk_text].
  - reflexivity.
  - now rewrite IH.
  - destruct (lookup n sub); cbn [flat chunk_text]; now rewrite IH.
  - now rewrite render_lits, IH.
Qed.

(** [sarg] computes [arg]. *)
Lemma sarg_sound (t t' : list chunk) (x : QString) :
  vars_ok t = true -> sarg t x = Some t' -> arg (flat t) x = flat t'.
Proof.
  intros Hok Hs. unfold sarg in Hs. unfold arg, pieces.
  destruct (sscan Plain t) as [sp|] eqn:E; [|discriminate].
  rewrite (sscan_sound t Plain sp Hok E), markers_expand.
  destruct (lowest_above None (smarkers sp)) as [n|].
  - injection Hs as <-. apply render_expand.
  - now injection Hs as <-.
Qed.

Lemma svars_ok_SP_app (ps : list piece) (sp : list spiece) :
  svars_ok (map SP ps ++ sp) = svars_ok sp.
Proof.
  induction ps as [|p ps IH]; cbn; [reflexivity | exact IH].
Qed.

Lemma sscan_vars_ok (t : list chunk) : forall (st : scan) (sp : list spiece),
  vars_ok t = true -> sscan st t = Some sp -> svars_ok sp = true.
Proof.
  induction t as [|[s|a] t IH]; intros st sp Hok Hs; cbn [sscan vars_ok] in *.
  - injection Hs as <-.
    rewrite <- (app_nil_r (map SP (scan_end st))), svars_ok_SP_app.
    reflexivity.
  - destruct (scan_text st s) as [ps st'].
    destruct (sscan st' t) as [sp'|] eqn:E; [|discriminate].
    cbn in Hs. injection Hs as <-.
    rewrite svars_ok_SP_app. exact (IH st' sp' Hok E).
  - apply andb_true_iff in Hok. destruct Hok as [Ha Hok].
    destruct st; try discriminate.
    destruct (sscan Plain t) as [sp'|] eqn:E; [|discriminate].
    cbn in Hs. injection Hs as <-.
    cbn. rewrite Ha. exact (IH Plain sp' Hok E).
Qed.

Lemma srender_vars_ok (n : N) (x : QString) (sp : list spiece) :
  no_percent x = true -> svars_ok sp = true ->
  vars_ok (srender [(n, x)] sp) = true.
Proof.
  intros Hx. induction sp as [|[[c|m raw]|a] sp IH];
    cbn [svars_ok srender vars_ok lookup]; intros H.
  - reflexivity.
  - exact (IH H).
  - destruct (m =? n)%N; cbn [vars_ok]; [rewrite Hx | ]; exact (IH H).
  - apply andb_true_iff in H. destruct H as [Ha H].
    rewrite Ha. exact (IH H).
Qed.

Lemma sarg_vars_ok (t t' : list chunk) (x : QString) :
  vars_ok t = true -> no_percent x = true -> sarg t x = Some t' ->
  vars_ok t' = true.
Proof.
  intros Hok Hx Hs. unfold sarg in Hs.
  destruct (sscan Plain t) as [sp|] eqn:E; [|discriminate].
  pose proof (sscan_vars_ok t Plain sp Hok E) as Hsp.
  destruct (lowest_above None (smarkers sp)) as [n|].
  - injection Hs as <-. now apply srender_vars_ok.
  - now injection Hs as <-.
Qed.

(** [sargs] computes a chain of [arg] calls whose arguments hold no
    percent sign. *)
Lemma sargs_sound (xs : list QString) : forall (t t' : list chunk),
  vars_ok t = true -> forallb no_percent xs = true ->
  sargs t xs = Some t' -> fold_left arg xs (flat t) = flat t'.
Proof.
  induction xs as [|x xs IH]; intros t t' Hok Hxs Hs; cbn [sargs fold_left] in *.
  - now injection Hs as <-.
  - apply andb_true_iff in Hxs. destruct Hxs as [Hx Hxs].
    destruct (sarg t x) as [t1|] eqn:E; [|discriminate].
    rewrite (sarg_sound t t1 x Hok E).
    apply IH; [exact (sarg_vars_ok t t1 x Hok Hx E) | exact Hxs | exact Hs].
Qed.

(** The decimal digits and the minus sign are no percent signs. *)
Lemma uint_no_percent (d : Decimal.uint) :
  no_percent (qs (NilEmpty.string_of_uint d)) = true.
Proof.
  induction d; cbn; try reflexivity; exact IHd.
Qed.

Lemma number_no_percent (z : Z) : no_percent (number z) = true.
Proof.
  unfold number.
  assert (H : forall d, no_percent (qs (NilZero.string_of_uint d)) = true).
  { intros d. destruct d; try reflexivity;
      unfold NilZero.string_of_uint; apply uint_no_percent. }
  destruct (Z.to_int z) as [d|d]; cbn [NilZero.string_of_int].
  - apply H.
  - cbn [qs no_percent forallb]. apply (H d).
Qed.

End TemplateFacts.

(** ** The sizes of the snippets *)

Module SizeFacts.
Import CInt CIntFacts Scaling ScalingFacts.

Lemma quot_between (em k : Z) :
  0 < k -> Z.min 0 em <= Z.quot em k <= Z.max 0 em.
Proof.
  intros Hk.
  destruct (Z.le_gt_cases 0 em) as [H | H].
  - pose proof (quot_bounds em k Hk).
    assert (0 <= Z.quot em k) by (apply Z.quot_pos; lia). lia.
  - pose proof (quot_bounds em k Hk).
    assert (0 <= Z.quot (- em) k) by (apply Z.quot_pos; lia).
    rewrite Z.quot_opp_l in * by lia. lia.
Qed.

Lemma quot_small (em k : Z) :
  0 < k -> INT_MIN <= em <= INT_MAX -> INT_MIN <= Z.quot em k <= INT_MAX.
Proof.
  intros Hk H. rewrite INT_MIN_val, INT_MAX_val in *.
  pose proof (quot_between em k Hk). lia.
Qed.

Lemma quot_3_2_bounds (em : Z) :
  Z.min 0 (em * 2) <= Z.quot (em * 3) 2 <= Z.max 0 (em * 2).
Proof.
  destruct (Z.le_gt_cases 0 em) as [H | H].
  - rewrite Z.quot_div_nonneg by lia.
    assert (0 <= em * 3 / 2) by (apply Z.div_pos; lia).
    assert (em * 3 / 2 <= 2 * em) by (apply Z.div_le_upper_bound; lia).
    lia.
  - assert (E : Z.quot (em * 3) 2 = - Z.quot (- em * 3) 2).
    { replace (- em * 3) with (- (em * 3)) by lia.
      rewrite Z.quot_opp_l by lia. lia. }
    rewrite E, Z.quot_div_nonneg by lia.
    assert (0 <= - em * 3 / 2) by (apply Z.div_pos; lia).
    assert (- em * 3 / 2 <= 2 * - em) by (apply Z.div_le_upper_bound; lia).
    lia.
Qed.

Lemma div_int (em k : Z) :
  0 < k -> INT_MIN <= em <= INT_MAX -> div em k = Some (Z.quot em k).
Proof.
  intros Hk H. unfold div.
  destruct (k =? 0) eqn:E; [apply Z.eqb_eq in E; lia | ].
  apply checked_in, quot_small; assumption.
Qed.

Lemma checked_None (z : Z) :
  checked z = None <-> ~ (INT_MIN <= z <= INT_MAX).
Proof.
  unfold checked. destruct (in_range z) eqn:E.
  - apply in_range_spec in E. split; [discriminate | tauto].
  - split; [ | reflexivity]. intros _ H. apply in_range_spec in H. congruence.
Qed.

Lemma button_sizes_value (em : Z) :
  INT_MIN <= em <= INT_MAX -> INT_MIN <= em * 5 <= INT_MAX ->
  button_sizes em =
    Some {| paddingVertical := Z.quot em 4; paddingHorizontal := Z.quot em 2;
            minWidth := em * 5 |}.
Proof.
  intros He H5. unfold button_sizes, mul.
  rewrite !div_int by (assumption || lia).
  rewrite (checked_in _ H5). reflexivity.
Qed.

Lemma main_sizes_value (em : Z) :
  INT_MIN <= em <= INT_MAX -> INT_MIN <= em * 2 <= INT_MAX ->
  main_sizes em =
    Some {| smallPadding := Z.quot em 4; mediumPadding := Z.quot em 2;
            largePadding := em; buttonHeight := em * 2;
            inputHeight := Z.quot (em * 3) 2; borderRadius := Z.quot em 4;
            iconSize := em |}.
Proof.
  intros He H2. unfold main_sizes, mul, of_double, dmul, to_double.
  rewrite !div_int by (assumption || lia).
  rewrite (checked_in _ H2).
  cbn [obind Qnum Qden Qmult inject_Z Pos.mul].
  rewrite checked_in; [reflexivity | ].
  pose proof (quot_3_2_bounds em). rewrite INT_MIN_val, INT_MAX_val in *. lia.
Qed.

(** The runtime solution is defined exactly on the font heights whose
    fivefold is an [int]: beyond that [em * 5] overflows. *)
Theorem button_sizes_defined_iff (em : Z) :
  INT_MIN <= em <= INT_MAX ->
  (button_sizes em = None <-> ~ (INT_MIN <= em * 5 <= INT_MAX)).
Proof.
  intros He. split.
  - intros E H5. rewrite (button_sizes_value em He H5) in E. discriminate.
  - intros H5. unfold button_sizes, mul.
    rewrite !div_int by (assumption || lia).
    apply checked_None in H5. rewrite H5. reflexivity.
Qed.

Lemma button_sizes_defined_iff_witness :
  button_sizes 429496730 = None <->
  ~ (INT_MIN <= 429496730 * 5 <= INT_MAX).
Proof.
  apply (button_sizes_defined_iff 429496730). vm_compute.
  split; discriminate.
Defined.

(** The sizes of [main] are defined exactly on the font heights whose
    double is an [int], a range two and a half times as wide: [em * 1.5]
    never leaves the range before [em * 2] does. *)
Theorem main_sizes_defined_iff (em : Z) :
  INT_MIN <= em <= INT_MAX ->
  (main_sizes em = None <-> ~ (INT_MIN <= em * 2 <= INT_MAX)).
Proof.
  intros He. split.
  - intros E H2. rewrite (main_sizes_value em He H2) in E. discriminate.
  - intros H2. unfold main_sizes, mul.
    rewrite !div_int by (assumption || lia).
    apply checked_None in H2. rewrite H2. reflexivity.
Qed.

Lemma main_sizes_defined_iff_witness :
  main_sizes 1073741824 = None <->
  ~ (INT_MIN <= 1073741824 * 2 <= INT_MAX).
Proof.
  apply (main_sizes_defined_iff 1073741824). vm_compute.
  split; discriminate.
Defined.

Lemma button_sizes_Some (em : Z) (b : ButtonSizes) :
  button_sizes em = Some b ->
  paddingVertical b = Z.quot em 4 /\ paddingHorizontal b = Z.quot em 2 /\
  minWidth b = em * 5.
Proof.
  unfold button_sizes, div, mul. cbn [Z.eqb].
  destruct (checked (Z.quot em 4)) as [q|] eqn:Eq; [|discriminate].
  destruct (checked (Z.quot em 2)) as [h|] eqn:Eh; [|discriminate].
  destruct (checked (em * 5)) as [f|] eqn:Ef; [|discriminate].
  cbn [obind]. intros [= <-]. cbn.
  apply checked_Some in Eq, Eh, Ef. intuition.
Qed.

Lemma main_sizes_Some (em : Z) (m : MainSizes) :
  main_sizes em = Some m ->
  m = {| smallPadding := Z.quot em 4; mediumPadding := Z.quot em 2;
         largePadding := em; buttonHeight := em * 2;
         inputHeight := Z.quot (em * 3) 2; borderRadius := Z.quot em 4;
         iconSize := em |}.
Proof.
  unfold main_sizes, div, mul, of_double, dmul, to_double.
  cbn [Z.eqb obind Qnum Qden Qmult inject_Z Pos.mul].
  destruct (checked (Z.quot em 4)) as [q|] eqn:Eq; [|discriminate].
  destruct (checked (Z.quot em 2)) as [h|] eqn:Eh; [|discriminate].
  destruct (checked (em * 2)) as [b|] eqn:Eb; [|discriminate].
  cbn [obind].
  destruct (checked (Z.quot (em * 3) 2)) as [i|] eqn:Ei; [|discriminate].
  cbn [obind]. intros [= <-].
  apply checked_Some in Eq, Eh, Eb, Ei.
  destruct Eq as [-> _], Eh as [-> _], Eb as [-> _], Ei as [-> _].
  reflexivity.
Qed.

(** Truncation loses less than one pixel: on a non-negative font height
    whose fivefold is an [int], the sizes exist, four times the vertical
    padding is at most [em] and misses it by less than 4, twice the
    horizontal padding misses it by less than 2, and the minimum width is
    exactly five times [em]. *)
Theorem button_sizes_error (em : Z) :
  0 <= em -> em * 5 <= INT_MAX ->
  exists b, button_sizes em = Some b /\
    4 * paddingVertical b <= em < 4 * paddingVertical b + 4 /\
    2 * paddingHorizontal b <= em < 2 * paddingHorizontal b + 2 /\
    minWidth b = 5 * em.
Proof.
  intros Hem Hmax. rewrite INT_MAX_val in Hmax.
  eexists. split.
  - apply button_sizes_value; rewrite INT_MIN_val, INT_MAX_val; lia.
  - cbn [paddingVertical paddingHorizontal minWidth].
    rewrite !Z.quot_div_nonneg by lia.
    pose proof (Z.div_mod em 4 ltac:(lia)).
    pose proof (Z.mod_pos_bound em 4 ltac:(lia)).
    pose proof (Z.div_mod em 2 ltac:(lia)).
    pose proof (Z.mod_pos_bound em 2 ltac:(lia)).
    lia.
Qed.

Lemma button_sizes_error_witness :
  exists b, button_sizes 19 = Some b /\
    4 * paddingVertical b <= 19 < 4 * paddingVertical b + 4 /\
    2 * paddingHorizontal b <= 19 < 2 * paddingHorizontal b + 2 /\
    minWidth b = 5 * 19.
Proof.
  apply (button_sizes_error 19); [lia | vm_compute; discriminate].
Defined.

(** On a positive font height whose double is an [int] the sizes of
    [main] exist and are ordered: small and medium padding, then the large
    padding and the icon size, which are [em] itself, then the input
    height, then the button height.  The input is taller than the text
    line exactly from [em = 2] on (at [em = 1] the product 1.5 truncates
    to 1), and the button is taller than the input. *)
Theorem main_sizes_ordered (em : Z) :
  0 < em -> em * 2 <= INT_MAX ->
  exists m, main_sizes em = Some m /\
    0 <= smallPadding m <= mediumPadding m /\
    mediumPadding m < largePadding m /\
    largePadding m = em /\ iconSize m = em /\
    borderRadius m = smallPadding m /\
    em <= inputHeight m < buttonHeight m /\
    (em < inputHeight m <-> 2 <= em).
Proof.
  intros Hem Hmax. rewrite INT_MAX_val in Hmax.
  eexists. split.
  - apply main_sizes_value; rewrite INT_MIN_val, INT_MAX_val; lia.
  - cbn [smallPadding mediumPadding largePadding buttonHeight inputHeight
         borderRadius iconSize].
    rewrite !Z.quot_div_nonneg by lia.
    pose proof (Z.div_mod em 4 ltac:(lia)).
    pose proof (Z.mod_pos_bound em 4 ltac:(lia)).
    pose proof (Z.div_mod em 2 ltac:(lia)).
    pose proof (Z.mod_pos_bound em 2 ltac:(lia)).
    pose proof (Z.div_mod (em * 3) 2 ltac:(lia)).
    pose proof (Z.mod_pos_bound (em * 3) 2 ltac:(lia)).
    lia.
Qed.

Lemma main_sizes_ordered_witness :
  exists m, main_sizes 1 = Some m /\
    0 <= smallPadding m <= mediumPadding m /\
    mediumPadding m < largePadding m /\
    largePadding m = 1 /\ iconSize m = 1 /\
    borderRadius m = smallPadding m /\
    1 <= inputHeight m < buttonHeight m /\
    (1 < inputHeight m <-> 2 <= 1).
Proof.
  apply (main_sizes_ordered 1); [lia | vm_compute; discriminate].
Defined.

Lemma small_padding_halved (em : Z) (m : MainSizes) :
  main_sizes em = Some m -> div (smallPadding m) 2 = Some (Z.quot em 8).
Proof.
  intros E. pose proof E as E'. apply main_sizes_Some in E'. subst m.
  cbn [smallPadding].
  unfold main_sizes, div in E. cbn [Z.eqb] in E.
  destruct (checked (Z.quot em 4)) as [q|] eqn:Eq; [|discriminate].
  apply checked_Some in Eq. destruct Eq as [_ Hq].
  rewrite div_int by (lia || assumption).
  rewrite Z.quot_quot by lia. reflexivity.
Qed.



(** Doubling the density: for a non-negative font height [em] such that
    the fivefold of [2 * em] is an [int], the sizes exist at [em] and at
    [2 * em]; the minimum width doubles exactly and the horizontal padding
    becomes the old font height, while the vertical padding is twice the
    old one or one pixel more; it is exactly twice the old one when the
    old font height is a multiple of 4 or leaves remainder 1. *)
Theorem button_sizes_doubling (em : Z) :
  0 <= em -> 2 * em * 5 <= INT_MAX ->
  exists b1 b2,
    button_sizes em = Some b1 /\ button_sizes (2 * em) = Some b2 /\
    minWidth b2 = 2 * minWidth b1 /\
    paddingHorizontal b2 = em /\
    2 * paddingVertical b1 <= paddingVertical b2 <= 2 * paddingVertical b1 + 1 /\
    (paddingVertical b2 = 2 * paddingVertical b1 <-> em mod 4 <= 1).
Proof.
  intros Hem Hmax. rewrite INT_MAX_val in Hmax.
  do 2 eexists. split; [ | split ].
  - apply button_sizes_value; rewrite INT_MIN_val, INT_MAX_val; lia.
  - apply button_sizes_value; rewrite INT_MIN_val, INT_MAX_val; lia.
  - cbn [paddingVertical paddingHorizontal minWidth].
    rewrite !Z.quot_div_nonneg by lia.
    pose proof (Z.div_mod em 4 ltac:(lia)).
    pose proof (Z.mod_pos_bound em 4 ltac:(lia)).
    pose proof (Z.div_mod (2 * em) 4 ltac:(lia)).
    pose proof (Z.mod_pos_bound (2 * em) 4 ltac:(lia)).
    pose proof (Z.div_mod (2 * em) 2 ltac:(lia)).
    pose proof (Z.mod_pos_bound (2 * em) 2 ltac:(lia)).
    lia.
Qed.

Lemma button_sizes_doubling_witness :
  exists b1 b2,
    button_sizes 18 = Some b1 /\ button_sizes (2 * 18) = Some b2 /\
    minWidth b2 = 2 * minWidth b1 /\
    paddingHorizontal b2 = 18 /\
    2 * paddingVertical b1 <= paddingVertical b2 <= 2 * paddingVertical b1 + 1 /\
    (paddingVertical b2 = 2 * paddingVertical b1 <-> 18 mod 4 <= 1).
Proof.
  apply (button_sizes_doubling 18); [lia | vm_compute; discriminate].
Defined.

End SizeFacts.

(** ** The stylesheets the snippets build *)

Module StyleFacts.
Import CInt CIntFacts QStr Scaling Styles Template TemplateFacts SizeFacts.

(** Proves [fold_left arg xs fmt = rhs] for a literal format [fmt], named
    [f] in the goal, and arguments known to hold no percent sign. *)
Ltac by_template f xs :=
  let r := eval vm_compute in (sargs [Txt f] xs) in
  lazymatch r with
  | Some ?t' =>
      lazymatch goal with
      | |- _ = ?rhs => change (fold_left arg xs f = rhs)
      end;
      transitivity (flat t');
      [ replace f with (flat [Txt f]) by apply app_nil_r;
        apply sargs_sound;
        [ reflexivity
        | cbn [forallb];
          repeat match goal with
                 | H : no_percent _ = true |- _ => rewrite H; clear H
                 end;
          reflexivity
        | vm_compute; reflexivity ]
      | reflexivity ]
  end.

Lemma button_format_text (a1 a2 a3 : QString) :
  no_percent a1 = true -> no_percent a2 = true -> no_percent a3 = true ->
  arg (arg (arg (qs "QPushButton {"
                 ++ qs "    padding: %1px %2px;"
                 ++ qs "    min-width: %3px;"
                 ++ qs "}") a1) a2) a3 =
  qs "QPushButton {    padding: " ++ a1 ++ qs "px " ++ a2
    ++ qs "px;    min-width: " ++ a3 ++ qs "px;}".
Proof.
  intros H1 H2 H3.
  set (f := qs "QPushButton {" ++ _).
  by_template f [a1; a2; a3].
Qed.

Lemma dpi_format_text (a1 a2 a3 : QString) :
  no_percent a1 = true -> no_percent a2 = true -> no_percent a3 = true ->
  arg (arg (arg (qs "QPushButton { padding: %1px %2px; min-width: %3px; }")
                a1) a2) a3 =
  qs "QPushButton { padding: " ++ a1 ++ qs "px " ++ a2
    ++ qs "px; min-width: " ++ a3 ++ qs "px; }".
Proof.
  intros H1 H2 H3.
  set (f := qs _).
  by_template f [a1; a2; a3].
Qed.

Lemma inline_format_text (a1 a2 a3 : QString) :
  no_percent a1 = true -> no_percent a2 = true -> no_percent a3 = true ->
  arg (arg (arg (qs "padding: %1px %2px; min-width: %3px;") a1) a2) a3 =
  qs "padding: " ++ a1 ++ qs "px " ++ a2 ++ qs "px; min-width: " ++ a3
    ++ qs "px;".
Proof.
  intros H1 H2 H3.
  set (f := qs _).
  by_template f [a1; a2; a3].
Qed.

Lemma window_format_text (a1 a2 : QString) :
  no_percent a1 = true -> no_percent a2 = true ->
  arg (arg (qs "QPushButton { padding: %1px %2px; }") a1) a2 =
  qs "QPushButton { padding: " ++ a1 ++ qs "px " ++ a2 ++ qs "px; }".
Proof.
  intros H1 H2.
  set (f := qs _).
  by_template f [a1; a2].
Qed.

Lemma main_format_chain (a1 a2 a3 a4 a5 a6 : QString) :
  no_percent a1 = true -> no_percent a2 = true -> no_percent a3 = true ->
  no_percent a4 = true -> no_percent a5 = true -> no_percent a6 = true ->
  arg (arg (arg (arg (arg (arg
    (qs "QPushButton {"
     ++ qs "    padding: %1px %2px;"
     ++ qs "    min-height: %3px;"
     ++ qs "    border: 1px solid #999;"
     ++ qs "    border-radius: %4px;"
     ++ qs "    background-color: #f0f0f0;"
     ++ qs "}"
     ++ qs "QPushButton:hover {"
     ++ qs "    background-color: #e0e0e0;"
     ++ qs "}"
     ++ qs "QLineEdit {"
     ++ qs "    padding: %5px %2px;"
     ++ qs "    min-height: %6px;"
     ++ qs "    border: 1px solid #ccc;"
     ++ qs "    border-radius: %4px;"
     ++ qs "}") a1) a2) a3) a4) a5) a6 =
  main_text a1 a2 a3 a4 a5 a6.
Proof.
  intros H1 H2 H3 H4 H5 H6. unfold main_text.
  set (f := qs "QPushButton {" ++ _).
  by_template f [a1; a2; a3; a4; a5; a6].
Qed.

Lemma main_format_text (s : MainSizes) (p : Z) :
  main_stylesheet s p =
  main_text (number (smallPadding s)) (number (mediumPadding s))
    (number (buttonHeight s)) (number (borderRadius s)) (number p)
    (number (inputHeight s)).
Proof.
  unfold main_stylesheet. apply main_format_chain; apply number_no_percent.
Qed.

(** The two results the text on [arg] gives in its comments. *)
Example arg_hello :
  arg (arg (qs "Hello %1, you have %2 messages") (qs "Alice")) (number 5) =
  qs "Hello Alice, you have 5 messages".
Proof. reflexivity. Qed.

Example arg_padding :
  arg (arg (qs "padding: %1px %2px;") (number 4)) (number 8) =
  qs "padding: 4px 8px;".
Proof. reflexivity. Qed.

(** The runtime solution, steps 1 to 4: on every font height whose
    fivefold is an [int], the application's style sheet becomes the
    template with the decimal numbers of [em / 4], [em / 2] and [em * 5]
    in the places of [%1], [%2] and [%3]; no marker is left and nothing
    else of the application changes. *)
Theorem runtime_solution_stylesheet (app : QApplication) :
  INT_MIN <= fontHeight app * 5 <= INT_MAX ->
  runtime_solution app =
    Some (tt, {| fontHeight := fontHeight app;
                 styleSheet :=
                   qs "QPushButton {    padding: "
                   ++ number (Z.quot (fontHeight app) 4) ++ qs "px "
                   ++ number (Z.quot (fontHeight app) 2)
                   ++ qs "px;    min-width: "
                   ++ number (fontHeight app * 5) ++ qs "px;}" |}).
Proof.
  intros H5. rewrite INT_MIN_val, INT_MAX_val in H5.
  unfold runtime_solution, scaled_sizes, bind, fm_height, lift, setStyleSheet.
  rewrite button_sizes_value by (rewrite INT_MIN_val, INT_MAX_val; lia).
  unfold button_stylesheet.
  cbn [paddingVertical paddingHorizontal minWidth fontHeight].
  rewrite button_format_text by apply number_no_percent.
  reflexivity.
Qed.

Lemma runtime_solution_stylesheet_witness :
  runtime_solution {| fontHeight := 19; styleSheet := [] |} =
    Some (tt, {| fontHeight := 19;
                 styleSheet :=
                   qs "QPushButton {    padding: "
                   ++ number (Z.quot 19 4) ++ qs "px "
                   ++ number (Z.quot 19 2)
                   ++ qs "px;    min-width: "
                   ++ number (19 * 5) ++ qs "px;}" |}).
Proof.
  apply (runtime_solution_stylesheet {| fontHeight := 19; styleSheet := [] |}).
  vm_compute. split; discriminate.
Defined.

(** [main]: on every font height whose double is an [int], the style
    sheet set on the application is the template with the numbers of
    [em / 4], [em / 2], [em * 2], [em / 4], [em / 8] and [em * 1.5]
    truncated; the shared markers [%2] and [%4] are filled at both of
    their occurrences. *)
Theorem main_sets_stylesheet (app : QApplication) :
  INT_MIN <= fontHeight app * 2 <= INT_MAX ->
  main app =
    Some (tt, {| fontHeight := fontHeight app;
                 styleSheet :=
                   main_text (number (Z.quot (fontHeight app) 4))
                     (number (Z.quot (fontHeight app) 2))
                     (number (fontHeight app * 2))
                     (number (Z.quot (fontHeight app) 4))
                     (number (Z.quot (fontHeight app) 8))
                     (number (Z.quot (fontHeight app * 3) 2)) |}).
Proof.
  intros H2. pose proof H2 as H2'. rewrite INT_MIN_val, INT_MAX_val in H2'.
  assert (He : INT_MIN <= fontHeight app <= INT_MAX)
    by (rewrite INT_MIN_val, INT_MAX_val; lia).
  unfold main, bind, fm_height, lift, setStyleSheet.
  pose proof (main_sizes_value _ He H2) as E. rewrite E.
  rewrite (small_padding_halved _ _ E).
  rewrite main_format_text. reflexivity.
Qed.

Lemma main_sets_stylesheet_witness :
  main {| fontHeight := 17; styleSheet := [] |} =
    Some (tt, {| fontHeight := 17;
                 styleSheet :=
                   main_text (number (Z.quot 17 4)) (number (Z.quot 17 2))
                     (number (17 * 2)) (number (Z.quot 17 4))
                     (number (Z.quot 17 8))
                     (number (Z.quot (17 * 3) 2)) |}).
Proof.
  apply (main_sets_stylesheet {| fontHeight := 17; styleSheet := [] |}).
  vm_compute. split; discriminate.
Defined.

Lemma applyScaledStylesheet_value (app : QApplication) (w : StyledWindow) :
  INT_MIN <= fontHeight app <= INT_MAX ->
  applyScaledStylesheet app w =
    Some {| windowStyleSheet :=
              qs "QPushButton { padding: "
              ++ number (Z.quot (fontHeight app) 4) ++ qs "px "
              ++ number (Z.quot (fontHeight app) 2) ++ qs "px; }" |}.
Proof.
  intros He. unfold applyScaledStylesheet.
  rewrite !div_int by (assumption || lia). cbn [obind].
  rewrite window_format_text by apply number_no_percent.
  reflexivity.
Qed.

(** [applyScaledStylesheet] and [changeEvent]: no [int] font height makes
    them undefined (they only divide), the constructor yields the window
    whose style sheet holds [em / 4] and [em / 2], and a sequence of
    events leaves any window as it was unless a [ScreenChangeEvent] is
    among them, in which case the window ends as the constructor would
    make it for the current font. *)
Theorem deliver_refreshes (app : QApplication) :
  INT_MIN <= fontHeight app <= INT_MAX ->
  let fresh :=
    {| windowStyleSheet :=
         qs "QPushButton { padding: "
         ++ number (Z.quot (fontHeight app) 4) ++ qs "px "
         ++ number (Z.quot (fontHeight app) 2) ++ qs "px; }" |} in
  StyledWindow_new app = Some fresh /\
  forall (es : list QEventType) (w : StyledWindow),
    deliver es app w =
    Some (if existsb isScreenChange es then fresh else w).
Proof.
  intros He fresh. split.
  - apply applyScaledStylesheet_value, He.
  - intros es. induction es as [|e es IH]; intros w; cbn [deliver existsb].
    + reflexivity.
    + destruct e as [|t]; cbn [changeEvent isScreenChange orb obind].
      * rewrite (applyScaledStylesheet_value app w He). cbn [obind].
        fold fresh. rewrite IH. destruct (existsb isScreenChange es); reflexivity.
      * apply IH.
Qed.

Lemma deliver_refreshes_witness :
  let app := {| fontHeight := 32; styleSheet := [] |} in
  let fresh :=
    {| windowStyleSheet :=
         qs "QPushButton { padding: "
         ++ number (Z.quot (fontHeight app) 4) ++ qs "px "
         ++ number (Z.quot (fontHeight app) 2) ++ qs "px; }" |} in
  StyledWindow_new app = Some fresh /\
  forall (es : list QEventType) (w : StyledWindow),
    deliver es app w =
    Some (if existsb isScreenChange es then fresh else w).
Proof.
  apply (deliver_refreshes {| fontHeight := 32; styleSheet := [] |}).
  vm_compute. split; discriminate.
Defined.

(** The one-line snippets ("Stylesheets and DPI" on the application, the
    inline style on one button): on every font height whose fivefold is an
    [int] they set the style sheet that carries [em / 4], [em / 2] and
    [em * 5], the button keeping its font. *)
Theorem one_line_stylesheets (em : Z) :
  INT_MIN <= em * 5 <= INT_MAX ->
  (forall sheet,
     stylesheets_and_dpi {| fontHeight := em; styleSheet := sheet |} =
       Some (tt, {| fontHeight := em;
                    styleSheet :=
                      qs "QPushButton { padding: " ++ number (Z.quot em 4)
                      ++ qs "px " ++ number (Z.quot em 2)
                      ++ qs "px; min-width: " ++ number (em * 5)
                      ++ qs "px; }" |})) /\
  (forall sheet,
     inline_style {| buttonFontHeight := em; buttonStyleSheet := sheet |} =
       Some {| buttonFontHeight := em;
               buttonStyleSheet :=
                 qs "padding: " ++ number (Z.quot em 4) ++ qs "px "
                 ++ number (Z.quot em 2) ++ qs "px; min-width: "
                 ++ number (em * 5) ++ qs "px;" |}).
Proof.
  intros H5. pose proof H5 as H5'. rewrite INT_MIN_val, INT_MAX_val in H5'.
  assert (He : INT_MIN <= em <= INT_MAX)
    by (rewrite INT_MIN_val, INT_MAX_val; lia).
  split; intros sheet.
  - unfold stylesheets_and_dpi, bind, fm_height, lift, setStyleSheet, mul.
    cbn [fontHeight].
    rewrite !div_int by (assumption || lia).
    rewrite (checked_in _ H5).
    rewrite dpi_format_text by apply number_no_percent. reflexivity.
  - unfold inline_style, mul. cbn [buttonFontHeight].
    rewrite !div_int by (assumption || lia).
    rewrite (checked_in _ H5). cbn [obind].
    rewrite inline_format_text by apply number_no_percent. reflexivity.
Qed.

Lemma one_line_stylesheets_witness :
  (forall sheet,
     stylesheets_and_dpi {| fontHeight := 16; styleSheet := sheet |} =
       Some (tt, {| fontHeight := 16;
                    styleSheet :=
                      qs "QPushButton { padding: " ++ number (Z.quot 16 4)
                      ++ qs "px " ++ number (Z.quot 16 2)
                      ++ qs "px; min-width: " ++ number (16 * 5)
                      ++ qs "px; }" |})) /\
  (forall sheet,
     inline_style {| buttonFontHeight := 16; buttonStyleSheet := sheet |} =
       Some {| buttonFontHeight := 16;
               buttonStyleSheet :=
                 qs "padding: " ++ number (Z.quot 16 4) ++ qs "px "
                 ++ number (Z.quot 16 2) ++ qs "px; min-width: "
                 ++ number (16 * 5) ++ qs "px;" |}).
Proof.
  apply (one_line_stylesheets 16). vm_compute. split; discriminate.
Defined.

End StyleFacts.

(** ** Sequences of clicks on the form *)

Module FormRunFacts.
Import QStr Form FormFacts FormRun.

Lemma dropWhile_app_all (p : QChar -> bool) (pre s : QString) :
  forallb p pre = true -> dropWhile p (pre ++ s) = dropWhile p s.
Proof.
  induction pre as [|c pre IH]; cbn; [reflexivity | ].
  intros H. apply andb_true_iff in H. destruct H as [Hc Hp].
  rewrite Hc. exact (IH Hp).
Qed.

Lemma dropWhile_app_keep (p : QChar -> bool) (s post : QString) :
  dropWhile p s <> [] -> dropWhile p (s ++ post) = dropWhile p s ++ post.
Proof.
  induction s as [|c s IH]; cbn; [congruence | ].
  destruct (p c); [exact IH | reflexivity].
Qed.

Lemma forallb_rev (p : QChar -> bool) (s : QString) :
  forallb p (rev s) = forallb p s.
Proof.
  induction s as [|c s IH]; cbn; [reflexivity | ].
  rewrite forallb_app, IH. cbn. rewrite andb_true_r. apply andb_comm.
Qed.

(** Whitespace around a text does not survive [trimmed]. *)
Lemma trimmed_padded (pre s post : QString) :
  forallb isSpace pre = true -> forallb isSpace post = true ->
  trimmed (pre ++ s ++ post) = trimmed s.
Proof.
  intros Hpre Hpost. unfold trimmed.
  rewrite (dropWhile_app_all _ _ _ Hpre).
  destruct (dropWhile isSpace s) as [|c t] eqn:E.
  - assert (Hs : dropWhile isSpace (s ++ post) = []).
    { clear - E Hpost. induction s as [|a s IH]; cbn in *.
      - now apply dropWhile_all.
      - destruct (isSpace a); [exact (IH E) | discriminate]. }
    rewrite Hs. reflexivity.
  - rewrite dropWhile_app_keep by (rewrite E; discriminate).
    rewrite E, rev_app_distr.
    rewrite dropWhile_app_all by (rewrite forallb_rev; exact Hpost).
    reflexivity.
Qed.

Lemma trimmed_nil : trimmed [] = [].
Proof. reflexivity. Qed.

Lemma onSubmit_onSubmit (w : MainWindow) : onSubmit (onSubmit w) = onSubmit w.
Proof.
  unfold onSubmit.
  destruct (isEmpty (trimmed (QLineEdit.text (m_nameEdit w)))
            || isEmpty (trimmed (QLineEdit.text (m_emailEdit w)))) eqn:E;
    cbn [with_statusLabel m_nameEdit m_emailEdit]; rewrite E; reflexivity.
Qed.

(** [onSubmit] reads the two line edits and writes the status label only:
    the edits and the rest of the window stay as they are, so that a second
    submit changes nothing. *)
Theorem onSubmit_idempotent (w : MainWindow) :
  m_nameEdit (onSubmit w) = m_nameEdit w /\
  m_emailEdit (onSubmit w) = m_emailEdit w /\
  frame (onSubmit w) = frame w /\
  onSubmit (onSubmit w) = onSubmit w.
Proof.
  split; [ | split; [ | split; [ | apply onSubmit_onSubmit ] ] ];
    unfold onSubmit; destruct (isEmpty _ || isEmpty _); reflexivity.
Qed.

Lemma onClear_onSubmit (w : MainWindow) : onClear (onSubmit w) = onClear w.
Proof.
  unfold onSubmit.
  destruct (isEmpty _ || isEmpty _); reflexivity.
Qed.

Lemma onClear_onClear (w : MainWindow) : onClear (onClear w) = onClear w.
Proof. reflexivity. Qed.

(** Submit right after Clear always shows the warning, whatever the
    window held before, and leaves both edits empty. *)
Theorem submit_after_clear (w : MainWindow) :
  let w' := clicked submitBtn (clicked clearBtn w) in
  status w' = warning /\
  QLineEdit.text (m_nameEdit w') = [] /\
  QLineEdit.text (m_emailEdit w') = [] /\
  frame w' = frame w.
Proof.
  cbn. repeat split.
Qed.

(** A sequence of clicks collapses: the window after the clicks [bs] and
    then [b] is the window after the single click [b], made on the cleared
    window when a Clear was among [bs] and on the initial window
    otherwise. *)
Theorem run_collapses (bs : list Button) (b : Button) (w : MainWindow) :
  run (bs ++ [b]) w =
  clicked b (if existsb isClear bs then onClear w else w).
Proof.
  revert b. induction bs as [|b' bs IH] using rev_ind; intros b.
  - reflexivity.
  - unfold run in *. rewrite fold_left_app. cbn [fold_left].
    rewrite IH, existsb_app. cbn [existsb]. rewrite orb_false_r.
    destruct b'; cbn [isClear clicked].
    + rewrite orb_true_r.
      destruct (existsb isClear bs); destruct b; cbn [clicked];
        rewrite ?onClear_onClear; reflexivity.
    + rewrite orb_false_r.
      destruct b; cbn [clicked].
      * apply onClear_onSubmit.
      * apply onSubmit_onSubmit.
Qed.

(** Whitespace typed around the name or the email does not show: the
    status after a submit is the same as for the bare texts. *)
Theorem onSubmit_ignores_padding
  (w : MainWindow) (n e pre post pre' post' : QString) :
  forallb isSpace pre = true -> forallb isSpace post = true ->
  forallb isSpace pre' = true -> forallb isSpace post' = true ->
  status (onSubmit (typed (pre ++ n ++ post) (pre' ++ e ++ post') w)) =
  status (onSubmit (typed n e w)).
Proof.
  intros H1 H2 H3 H4. unfold status, onSubmit, typed.
  cbn [with_emailEdit with_nameEdit m_nameEdit m_emailEdit QLineEdit.text].
  rewrite !trimmed_padded by assumption.
  destruct (isEmpty (trimmed n) || isEmpty (trimmed e)); reflexivity.
Qed.

Lemma onSubmit_ignores_padding_witness :
  status (onSubmit (typed (qs "  " ++ qs "Ada" ++ qs " ")
                          (qs " " ++ qs "a@b" ++ qs "   ") MainWindow_new)) =
  status (onSubmit (typed (qs "Ada") (qs "a@b") MainWindow_new)).
Proof.
  apply (onSubmit_ignores_padding MainWindow_new); reflexivity.
Defined.

(** A message other than the warning shows a name and an email that are
    not empty and neither start nor end with whitespace. *)
Theorem submitted_parts_clean (w : MainWindow) :
  status (onSubmit w) <> warning ->
  exists n e,
    status (onSubmit w) = qs "Submitted: " ++ n ++ qs " <" ++ e ++ qs ">" /\
    n = trimmed (QLineEdit.text (m_nameEdit w)) /\
    e = trimmed (QLineEdit.text (m_emailEdit w)) /\
    n <> [] /\ e <> [] /\
    (forall c t, n = c :: t \/ n = t ++ [c] -> isSpace c = false) /\
    (forall c t, e = c :: t \/ e = t ++ [c] -> isSpace c = false).
Proof.
  intros H.
  set (n := trimmed (QLineEdit.text (m_nameEdit w))) in *.
  set (e := trimmed (QLineEdit.text (m_emailEdit w))) in *.
  assert (Hs : status (onSubmit w) =
               if isEmpty n || isEmpty e then warning
               else qs "Submitted: " ++ n ++ qs " <" ++ e ++ qs ">").
  { unfold status, onSubmit. fold n e.
    destruct (isEmpty n || isEmpty e); cbn -[arg2 qs warning app].
    - reflexivity.
    - apply arg2_submitted. }
  destruct (isEmpty n || isEmpty e) eqn:E; [contradiction | ].
  apply orb_false_iff in E. destruct E as [En Ee].
  exists n, e.
  split; [exact Hs | ]. split; [reflexivity | ]. split; [reflexivity | ].
  split; [intros Hn; apply isEmpty_spec in Hn; congruence | ].
  split; [intros He; apply isEmpty_spec in He; congruence | ].
  split; intros c t [Ec | Ec];
    first [ exact (proj1 (trimmed_no_outer_space _) c t Ec)
          | exact (proj2 (trimmed_no_outer_space _) c t Ec) ].
Qed.

Lemma submitted_parts_clean_witness :
  exists n e,
    status (onSubmit (typed (qs " Ada ") (qs "a@b") MainWindow_new)) =
      qs "Submitted: " ++ n ++ qs " <" ++ e ++ qs ">" /\
    n = trimmed (QLineEdit.text
                   (m_nameEdit (typed (qs " Ada ") (qs "a@b") MainWindow_new))) /\
    e = trimmed (QLineEdit.text
                   (m_emailEdit (typed (qs " Ada ") (qs "a@b") MainWindow_new))) /\
    n <> [] /\ e <> [] /\
    (forall c t, n = c :: t \/ n = t ++ [c] -> isSpace c = false) /\
    (forall c t, e = c :: t \/ e = t ++ [c] -> isSpace c = false).
Proof.
  apply (submitted_parts_clean (typed (qs " Ada ") (qs "a@b") MainWindow_new)).
  vm_compute. discriminate.
Defined.

End FormRunFacts.
